(** * useTemporalState: undo/redo history over React state cells

    A shallow embedding of [src/index.ts].  The file holds two versions of
    the hook [useTemporalState]; both keep three [useState] cells ([past],
    [present], [future]) and return the callbacks [set], [undo], [redo]
    together with the reads [state], [canUndo], [canRedo].

    - arrays are lists, [Array.prototype.slice] is written out with its
      index clamping (negative indices count from the end);
    - [limit] is a JavaScript number; the development covers the integers
      ([Z]), which include zero and the negatives;
    - the [useState] cells are an explicit store threaded by a small state
      monad; a setter takes a value or an updater, and an updater may call
      further setters while it runs (the first version nests them);
    - a callback closes over the values read by the render that created it;
      the sections [Render] make that closure explicit. *)

From Stdlib Require Import List ZArith Bool Lia PeanoNat.
Import ListNotations.

Set Implicit Arguments.

(** ** JavaScript arrays *)

Module JsArray.
Section Slice.
Context {A : Type}.

(** Relative index of [slice]: a negative index counts from the end and
    the result is clamped to [0..len]. *)
Definition relative (len i : Z) : Z :=
    if (i <? 0)%Z then Z.max (len + i) 0 else Z.min i len.

(** [a.slice(start, stop)]; [stop = None] is the one-argument call. *)
Definition slice (start : Z) (stop : option Z) (a : list A) : list A :=
    let len := Z.of_nat (length a) in
    let k := relative len start in
    let final := match stop with
                 | None => len
                 | Some e => relative len e
                 end in
    firstn (Z.to_nat (final - k)) (skipn (Z.to_nat k) a).

(** [a[i]]: [None] stands for [undefined]. *)
Definition index (a : list A) (i : Z) : option A :=
    if (i <? 0)%Z then None else nth_error a (Z.to_nat i).

(** [a.length] *)
Definition len (a : list A) : Z := Z.of_nat (length a).
End Slice.
End JsArray.

(** ** The three state cells and their setters *)

(** JavaScript's [===] on the state type (by reference on objects). *)
Class StrictEq (T : Type) := strictEq : T -> T -> bool.

#[export] Instance StrictEq_Z : StrictEq Z := Z.eqb.
#[export] Instance StrictEq_nat : StrictEq nat := Nat.eqb.

Record Cells (T : Type) : Type := mkCells {
  past : list T;
  present : T;
  future : list T
}.

Arguments mkCells {T} _ _ _.

Module React.
Section Hooks.
Context {T : Type}.

(** Computations over the cells of one component. *)
Definition M (A : Type) : Type := Cells T -> A * Cells T.

Definition ret {A} (a : A) : M A := fun c => (a, c).

Definition bind {A B} (m : M A) (k : A -> M B) : M B :=
    fun c => let (a, c') := m c in k a c'.

Definition exec (m : M unit) (c : Cells T) : Cells T := snd (m c).

(** [SetStateAction<S>]: a value, or an updater applied to the latest
    value of the cell. *)
Inductive Action (S : Type) : Type :=
  | Value (s : S)
  | Updater (f : S -> M S).

Definition resolve {S} (a : Action S) (prev : S) : M S :=
    match a with
    | Value s => ret s
    | Updater f => f prev
    end.

Definition setPast (a : Action (list T)) : M unit :=
    fun c => let (v, c') := resolve a (past c) c in
             (tt, mkCells v (present c') (future c')).

Definition setPresent (a : Action T) : M unit :=
    fun c => let (v, c') := resolve a (present c) c in
             (tt, mkCells (past c') v (future c')).

Definition setFuture (a : Action (list T)) : M unit :=
    fun c => let (v, c') := resolve a (future c) c in
             (tt, mkCells (past c') (present c') v).

(** [useState(initialValue)] for the three cells, on mount. *)
Definition mount (initialValue : T) : Cells T := mkCells [] initialValue [].
End Hooks.

Arguments Value {T S} _.
Arguments Updater {T S} _.
End React.

Declare Scope react_scope.
Delimit Scope react_scope with react.
Notation "m1 ;; m2" := (React.bind m1 (fun _ => m2))
  (at level 61, right associativity) : react_scope.

(** ** Options and the returned object *)

Record TemporalOptions (T : Type) : Type := mkOptions {
  limit : option Z;
  shouldAddToHistory : option (T -> T -> bool)
}.

Arguments mkOptions {T} _ _.

(** The argument of [set]: [T | ((prev: T) => T)], told apart at run time
    by [typeof newState === "function"]. *)
Inductive SetArg (T : Type) : Type :=
| Direct (v : T)
| Functional (f : T -> T).

Arguments Direct {T} _.
Arguments Functional {T} _.

Module Api.
Record t (T : Type) : Type := mk {
    state : T;
    set : SetArg T -> React.M (T := T) unit;
    undo : React.M (T := T) unit;
    redo : React.M (T := T) unit;
    canUndo : bool;
    canRedo : bool
  }.
End Api.

Section Defaults.
Context {T : Type} `{StrictEq T}.

(** [const { limit = 50, shouldAddToHistory = (prev, next) => prev !== next } = options] *)
Definition limitOf (options : TemporalOptions T) : Z :=
    match limit options with
    | Some l => l
    | None => 50%Z
    end.

Definition recordsOf (options : TemporalOptions T) : T -> T -> bool :=
    match shouldAddToHistory options with
    | Some f => f
    | None => fun prev next => negb (strictEq prev next)
    end.
End Defaults.


(** ** First version of the hook (index.ts, lines 13-77) *)

Module V1.
Import React JsArray.
Local Open Scope react_scope.

Section Render.
Context {T : Type} `{StrictEq T}.
Variable options : TemporalOptions T.
(** The cells as this render read them: [past], [present] and [future]
    below are what the callbacks of the render close over. *)
Variable cells : Cells T.

Let limit : Z := limitOf options.
Let shouldAddToHistory : T -> T -> bool := recordsOf options.
Let present : T := present cells.

Definition set (newState : SetArg T) : M unit :=
  setPresent (Updater (fun prevPresent =>
    let next := match newState with
                | Functional f => f prevPresent
                | Direct v => v
                end in
    if negb (shouldAddToHistory prevPresent next) then ret prevPresent
    else
      setPast (Updater (fun prev =>
        let updated := prev ++ [prevPresent] in
        ret (if (len updated >? limit)%Z
             then slice (- limit) None updated
             else updated))) ;;
      setFuture (Value []) ;;
      ret next)).

Definition undo : M unit :=
  setPast (Updater (fun prevPast =>
    if (len prevPast =? 0)%Z then ret prevPast
    else
      let newPast := slice 0 (Some (-1)%Z) prevPast in
      match index prevPast (len prevPast - 1) with
      | Some lastState =>
          setFuture (Updater (fun f => ret (present :: f))) ;;
          setPresent (Value lastState) ;;
          ret newPast
      | None => ret prevPast (* not reached: [prevPast] is not empty here, see [index_last] *)
      end)).

Definition redo : M unit :=
  setFuture (Updater (fun prevFuture =>
    if (len prevFuture =? 0)%Z then ret prevFuture
    else
      match prevFuture with
      | nextState :: restFuture =>
          setPast (Updater (fun p =>
            let updated := p ++ [present] in
            ret (if (len updated >? limit)%Z
                 then slice (- limit) None updated
                 else updated))) ;;
          setPresent (Value nextState) ;;
          ret restFuture
      | [] => ret prevFuture (* not reached: the length is not 0 here *)
      end)).

Definition useTemporalState : Api.t T :=
  {| Api.state := present;
     Api.set := set;
     Api.undo := undo;
     Api.redo := redo;
     Api.canUndo := (len (past cells) >? 0)%Z;
     Api.canRedo := (len (future cells) >? 0)%Z |}.
End Render.
End V1.

(** ** Second version of the hook (index.ts, lines 92-173) *)

Module V2.
Import React JsArray.
Local Open Scope react_scope.

Section Render.
Context {T : Type} `{StrictEq T}.
Variable options : TemporalOptions T.
Variable cells : Cells T.

Let limit : Z := limitOf options.
Let shouldAddToHistory : T -> T -> bool := recordsOf options.
Let past : list T := past cells.
Let present : T := present cells.
Let future : list T := future cells.

Definition set (newState : SetArg T) : M unit :=
  let next := match newState with
              | Functional f => f present
              | Direct v => v
              end in
  if negb (shouldAddToHistory present next) then
    setPresent (Value next)
  else
    let newPast := past ++ [present] in
    let trimmedPast :=
      if (len newPast >? limit)%Z then slice (- limit) None newPast
      else newPast in
    setPast (Value trimmedPast) ;;
    setPresent (Value next) ;;
    setFuture (Value []).

Definition undo : M unit :=
  if (len past =? 0)%Z then ret tt
  else
    let newPast := slice 0 (Some (-1)%Z) past in
    match index past (len past - 1) with
    | Some lastState =>
        setPast (Value newPast) ;;
        setFuture (Updater (fun f => ret (present :: f))) ;;
        setPresent (Value lastState)
    | None => ret tt (* not reached: [past] is not empty here, see [index_last] *)
    end.

Definition redo : M unit :=
  if (len future =? 0)%Z then ret tt
  else
    match future with
    | nextState :: restFuture =>
        let newPast := past ++ [present] in
        let trimmedPast :=
          if (len newPast >? limit)%Z then slice (- limit) None newPast
          else newPast in
        setPast (Value trimmedPast) ;;
        setFuture (Value restFuture) ;;
        setPresent (Value nextState)
    | [] => ret tt (* not reached: the length is not 0 here *)
    end.

Definition useTemporalState : Api.t T :=
  {| Api.state := present;
     Api.set := set;
     Api.undo := undo;
     Api.redo := redo;
     Api.canUndo := (len past >? 0)%Z;
     Api.canRedo := (len future >? 0)%Z |}.
End Render.
End V2.

(** ** The hook as a transition system

    A user event calls one callback of the latest render, and React
    re-renders before the next event (the tests wrap every call in its own
    [act]).  [step] is that: render on the committed cells, run the
    callback, commit. *)

Inductive Version : Type := First | Second.

Inductive Op (T : Type) : Type :=
| DoSet (newState : SetArg T)
| DoUndo
| DoRedo.

Arguments DoSet {T} _.
Arguments DoUndo {T}.
Arguments DoRedo {T}.

Section Machine.
Context {T : Type} `{StrictEq T}.
Variable version : Version.
Variable options : TemporalOptions T.

Definition render (cells : Cells T) : Api.t T :=
  match version with
  | First => V1.useTemporalState options cells
  | Second => V2.useTemporalState options cells
  end.

Definition call (op : Op T) (api : Api.t T) : React.M unit :=
  match op with
  | DoSet newState => Api.set api newState
  | DoUndo => Api.undo api
  | DoRedo => Api.redo api
  end.

Definition step (op : Op T) (cells : Cells T) : Cells T :=
  React.exec (call op (render cells)) cells.

Definition run (ops : list (Op T)) (cells : Cells T) : Cells T :=
  fold_left (fun c op => step op c) ops cells.

(** The reads of the returned object after the cells were committed. *)
Definition state (cells : Cells T) : T := Api.state (render cells).
Definition canUndo (cells : Cells T) : bool := Api.canUndo (render cells).
Definition canRedo (cells : Cells T) : bool := Api.canRedo (render cells).

(** The candidate value [set] computes from its argument. *)
Definition candidate (newState : SetArg T) (cells : Cells T) : T :=
  match newState with
  | Functional f => f (present cells)
  | Direct v => v
  end.
End Machine.

(** The [n] most recent entries of a history (its last [n] elements). *)
Definition lastn {A} (n : nat) (l : list A) : list A :=
  skipn (length l - n) l.

(** [undo] called [k] times, each on a fresh render. *)
Definition undos {T} `{StrictEq T} (v : Version) (o : TemporalOptions T)
  (k : nat) (c : Cells T) : Cells T :=
  Nat.iter k (step v o DoUndo) c.

(** The whole timeline, oldest first. *)
Definition timeline {T} (c : Cells T) : list T :=
  past c ++ [present c] ++ future c.

(** The array both versions store after pushing onto [past]:
    [a.length > limit ? a.slice(-limit) : a]. *)
Definition kept {A} (limit : Z) (a : list A) : list A :=
  if (JsArray.len a >? limit)%Z then JsArray.slice (- limit) None a else a.

(** Does [op] push the present onto [past]?  [set] does when the predicate
    accepts the candidate, [redo] when there is a future. *)
Definition pushes {T} `{StrictEq T} (o : TemporalOptions T) (op : Op T)
  (c : Cells T) : bool :=
  match op with
  | DoSet newState => recordsOf o (present c) (candidate newState c)
  | DoUndo => false
  | DoRedo => negb (JsArray.len (future c) =? 0)%Z
  end.

(** Sample configurations used by the examples below. *)
Definition limit3 : TemporalOptions Z := mkOptions (Some 3%Z) None.
Definition limit0 : TemporalOptions Z := mkOptions (Some 0%Z) None.
Definition neverRecord : TemporalOptions Z :=
  mkOptions None (Some (fun _ _ => false)).
Definition alwaysRecord (l : Z) : TemporalOptions Z :=
  mkOptions (Some l) (Some (fun _ _ => true)).

(** [set(x)] for each [x] of a list, in order. *)
Definition sets {T} (xs : list T) : list (Op T) :=
  map (fun x => DoSet (Direct x)) xs.

(** [redo] called [k] times, each on a fresh render. *)
Definition redos {T} `{StrictEq T} (v : Version) (o : TemporalOptions T)
  (k : nat) (c : Cells T) : Cells T :=
  Nat.iter k (step v o DoRedo) c.

(** Calls made from one render before React renders again (one event
    handler): the callbacks all close over the cells that render read, and
    the setter calls they queue are applied in the order they were made,
    an updater to the latest value of its cell. *)
Definition batch {T} `{StrictEq T} (v : Version) (o : TemporalOptions T)
  (ops : list (Op T)) (cells : Cells T) : Cells T :=
  let api := render v o cells in
  fold_left (fun c op => React.exec (call op api) c) ops cells.

(** [undo] and [redo], the calls that move along the timeline. *)
Definition navigates {T} (op : Op T) : bool :=
  match op with
  | DoSet _ => false
  | DoUndo | DoRedo => true
  end.

(** The argument of a [set] keeps a property [P] of the values: the value
    has it, or the function maps values that have it to such values. *)
Definition respects {T} (P : T -> Prop) (op : Op T) : Prop :=
  match op with
  | DoSet (Direct x) => P x
  | DoSet (Functional f) => forall p, P p -> P (f p)
  | DoUndo | DoRedo => True
  end.

(** * Properties *)

(** ** Arrays *)

Section ArrayFacts.
Context {A : Type}.
Implicit Types (a b : list A) (x : A).

Lemma len_app a b : JsArray.len (a ++ b) = (JsArray.len a + JsArray.len b)%Z.
Proof. unfold JsArray.len. rewrite length_app. lia. Qed.

Lemma len_nonneg a : (0 <= JsArray.len a)%Z.
Proof. unfold JsArray.len. lia. Qed.

Lemma len_zero a : (JsArray.len a =? 0)%Z = true <-> a = [].
Proof.
  unfold JsArray.len. rewrite Z.eqb_eq. destruct a; simpl; split;
    intros E; try reflexivity; try discriminate; lia.
Qed.

Lemma relative_nonneg (n i : Z) :
  (0 <= i)%Z -> JsArray.relative n i = Z.min i n.
Proof.
  intros Hi. unfold JsArray.relative.
  destruct (Z.ltb_spec i 0); [lia | reflexivity].
Qed.

Lemma relative_neg (n i : Z) :
  (i < 0)%Z -> JsArray.relative n i = Z.max (n + i) 0.
Proof.
  intros Hi. unfold JsArray.relative.
  destruct (Z.ltb_spec i 0); [reflexivity | lia].
Qed.

Lemma slice_init a x : JsArray.slice 0 (Some (-1)%Z) (a ++ [x]) = a.
Proof.
  unfold JsArray.slice.
  rewrite (@relative_nonneg _ 0), (@relative_neg _ (-1)) by lia.
  rewrite length_app. simpl length.
  replace (Z.to_nat (Z.min 0 _)) with 0 by lia.
  replace (Z.to_nat _) with (length a) by lia.
  simpl skipn.
  rewrite firstn_app, Nat.sub_diag, firstn_all. simpl. apply app_nil_r.
Qed.

Lemma index_last a x :
  JsArray.index (a ++ [x]) (JsArray.len (a ++ [x]) - 1) = Some x.
Proof.
  unfold JsArray.index. rewrite len_app. unfold JsArray.len. simpl length.
  replace (Z.of_nat (length a) + Z.of_nat 1 - 1)%Z with (Z.of_nat (length a)) by lia.
  destruct (Z.ltb_spec (Z.of_nat (length a)) 0); [lia|].
  rewrite Nat2Z.id, nth_error_app2, Nat.sub_diag by lia. reflexivity.
Qed.

Lemma snoc_cases a : a = [] \/ exists b x, a = b ++ [x].
Proof.
  destruct a as [|y a]; [left; reflexivity | right].
  destruct (@exists_last _ (y :: a)) as [b [x E]]; [discriminate | eauto].
Qed.

Lemma lastn_length n a : length (lastn n a) = Nat.min n (length a).
Proof. unfold lastn. rewrite length_skipn. lia. Qed.

Lemma lastn_all n a : length a <= n -> lastn n a = a.
Proof.
  intros Hn. unfold lastn.
  replace (length a - n) with 0 by lia. reflexivity.
Qed.

Lemma lastn_app n a b :
  lastn n (a ++ b) = lastn (n - length b) a ++ lastn n b.
Proof.
  unfold lastn. rewrite skipn_app, length_app.
  destruct (Nat.le_gt_cases (length b) n) as [Hle|Hgt].
  - f_equal; f_equal; lia.
  - rewrite !(@skipn_all2 _ _ a) by lia. f_equal; f_equal; lia.
Qed.

Lemma lastn_lastn k n a : lastn k (lastn n a) = lastn (Nat.min k n) a.
Proof.
  unfold lastn at 1 3. rewrite lastn_length. unfold lastn.
  rewrite skipn_skipn. f_equal. lia.
Qed.

Lemma lastn_app_lastn n a b : lastn n (lastn n a ++ b) = lastn n (a ++ b).
Proof.
  rewrite !lastn_app, lastn_lastn. do 2 f_equal. lia.
Qed.

Lemma lastn_snoc n a x : 0 < n -> lastn n (a ++ [x]) = lastn (n - 1) a ++ [x].
Proof.
  intros Hn. rewrite lastn_app. simpl length. f_equal.
  apply lastn_all. simpl. lia.
Qed.

(** ** The stored history [kept] *)

Lemma kept_fits (limit : Z) a : (JsArray.len a <= limit)%Z -> kept limit a = a.
Proof.
  intros Hle. unfold kept. rewrite Z.gtb_ltb.
  destruct (Z.ltb_spec limit (JsArray.len a)); [lia | reflexivity].
Qed.

(** For a positive limit the last [limit] entries stay: the front goes. *)
Lemma kept_pos (limit : Z) a :
  (0 < limit)%Z -> kept limit a = lastn (Z.to_nat limit) a.
Proof.
  intros Hpos. unfold kept, JsArray.len. rewrite Z.gtb_ltb.
  destruct (Z.ltb_spec limit (Z.of_nat (length a))) as [Hlt|Hge].
  - unfold JsArray.slice. rewrite relative_neg by lia.
    unfold lastn.
    replace (Z.to_nat (Z.max _ 0)) with (length a - Z.to_nat limit) by lia.
    apply firstn_all2. rewrite length_skipn. lia.
  - symmetry. apply lastn_all. lia.
Qed.

(** [a.slice(-0)] is [a.slice(0)]: with limit zero nothing is dropped. *)
Lemma kept_zero a : kept 0 a = a.
Proof.
  unfold kept, JsArray.len. rewrite Z.gtb_ltb.
  destruct (Z.ltb_spec 0 (Z.of_nat (length a))) as [Hlt|Hge]; [|reflexivity].
  unfold JsArray.slice. simpl (- 0)%Z. rewrite relative_nonneg by lia.
  replace (Z.to_nat (Z.min 0 _)) with 0 by lia.
  simpl skipn. apply firstn_all2. lia.
Qed.

Lemma kept_len (limit : Z) a :
  (0 < limit)%Z -> (JsArray.len (kept limit a) <= limit)%Z.
Proof.
  intros Hpos. rewrite kept_pos by assumption.
  unfold JsArray.len. rewrite lastn_length. lia.
Qed.
End ArrayFacts.

(** ** One call, in closed form *)

Section StepFacts.
Context {T : Type} `{StrictEq T}.
Variable o : TemporalOptions T.
Implicit Types (c : Cells T) (a : SetArg T) (v : Version).

Lemma cells_eta c : mkCells (past c) (present c) (future c) = c.
Proof. destruct c; reflexivity. Qed.

(** A recorded [set] is the same in both versions. *)
Lemma step_set_recorded v a c :
  recordsOf o (present c) (candidate a c) = true ->
  step v o (DoSet a) c =
  mkCells (kept (limitOf o) (past c ++ [present c])) (candidate a c) [].
Proof.
  intros Hrec. destruct v, a; unfold candidate in Hrec;
    cbv [step call render React.exec V1.useTemporalState V2.useTemporalState
         Api.set V1.set V2.set React.setPresent React.setPast React.setFuture
         React.resolve React.bind React.ret snd candidate];
    rewrite Hrec; reflexivity.
Qed.

(** An unrecorded [set] in the first version returns [prevPresent]. *)
Lemma step_set_unrecorded_first a c :
  recordsOf o (present c) (candidate a c) = false ->
  step First o (DoSet a) c = c.
Proof.
  intros Hrec. destruct a; unfold candidate in Hrec;
    cbv [step call render React.exec V1.useTemporalState
         Api.set V1.set React.setPresent React.resolve React.ret snd];
    rewrite Hrec; apply cells_eta.
Qed.

(** An unrecorded [set] in the second version stores the candidate. *)
Lemma step_set_unrecorded_second a c :
  recordsOf o (present c) (candidate a c) = false ->
  step Second o (DoSet a) c = mkCells (past c) (candidate a c) (future c).
Proof.
  intros Hrec. destruct a; unfold candidate in Hrec;
    cbv [step call render React.exec V2.useTemporalState
         Api.set V2.set React.setPresent React.resolve React.ret snd candidate];
    rewrite Hrec; reflexivity.
Qed.

Lemma step_undo_nil v c : past c = [] -> step v o DoUndo c = c.
Proof.
  intros E. destruct c as [p x f]; simpl in E; subst p. destruct v; reflexivity.
Qed.

Lemma step_undo_snoc v c ps x :
  past c = ps ++ [x] ->
  step v o DoUndo c = mkCells ps x (present c :: future c).
Proof.
  intros E. destruct c as [p y f]; simpl in E; subst p.
  assert (Hlen : (JsArray.len (ps ++ [x]) =? 0)%Z = false).
  { destruct (JsArray.len (ps ++ [x]) =? 0)%Z eqn:Hz; [|reflexivity].
    apply len_zero in Hz. destruct ps; discriminate. }
  destruct v;
    cbv [step call render React.exec V1.useTemporalState V2.useTemporalState
         Api.undo V1.undo V2.undo React.setPresent React.setPast
         React.setFuture React.resolve React.bind React.ret snd
         past present future];
    rewrite Hlen, index_last, slice_init; reflexivity.
Qed.

Lemma step_redo_nil v c : future c = [] -> step v o DoRedo c = c.
Proof.
  intros E. destruct c as [p x f]; simpl in E; subst f. destruct v; reflexivity.
Qed.

Lemma step_redo_cons v c x fs :
  future c = x :: fs ->
  step v o DoRedo c = mkCells (kept (limitOf o) (past c ++ [present c])) x fs.
Proof.
  intros E. destruct c as [p y f]; simpl in E; subst f.
  assert (Hlen : (JsArray.len (x :: fs) =? 0)%Z = false).
  { destruct (JsArray.len (x :: fs) =? 0)%Z eqn:Hz; [|reflexivity].
    apply len_zero in Hz. discriminate. }
  destruct v;
    cbv [step call render React.exec V1.useTemporalState V2.useTemporalState
         Api.redo V1.redo V2.redo React.setPresent React.setPast
         React.setFuture React.resolve React.bind React.ret snd
         past present future];
    rewrite Hlen; reflexivity.
Qed.

Lemma state_present v c : state v o c = present c.
Proof. destruct v; reflexivity. Qed.

Lemma canUndo_true v c : canUndo v o c = true <-> past c <> [].
Proof.
  assert (E : canUndo v o c = (JsArray.len (past c) >? 0)%Z)
    by (destruct v; reflexivity).
  rewrite E, Z.gtb_ltb, Z.ltb_lt. unfold JsArray.len.
  destruct (past c); simpl; split; intros; try lia; congruence.
Qed.

Lemma canUndo_false v c : canUndo v o c = false <-> past c = [].
Proof.
  destruct (canUndo v o c) eqn:E.
  - apply canUndo_true in E. split; [discriminate | contradiction].
  - split; [|reflexivity]. intros _.
    destruct (past c) eqn:P; [reflexivity|].
    assert (canUndo v o c = true) by (apply canUndo_true; rewrite P; discriminate).
    congruence.
Qed.

Lemma canRedo_false v c : canRedo v o c = false <-> future c = [].
Proof.
  assert (E : canRedo v o c = (JsArray.len (future c) >? 0)%Z)
    by (destruct v; reflexivity).
  rewrite E, Z.gtb_ltb, Z.ltb_ge. unfold JsArray.len.
  destruct (future c); simpl; split; intros; try lia; congruence.
Qed.
End StepFacts.

(** ** Runs *)

Section RunFacts.
Context {T : Type} `{StrictEq T}.
Variable v : Version.
Variable o : TemporalOptions T.
Implicit Types (c : Cells T) (op : Op T).

Lemma run_app ops1 ops2 c : run v o (ops1 ++ ops2) c = run v o ops2 (run v o ops1 c).
Proof. unfold run. apply fold_left_app. Qed.

Lemma run_snoc ops op c : run v o (ops ++ [op]) c = step v o op (run v o ops c).
Proof. rewrite run_app. reflexivity. Qed.

Lemma undos_succ k c : undos v o (S k) c = step v o DoUndo (undos v o k c).
Proof. reflexivity. Qed.

(** What a pushing call stores in [past]. *)
Lemma step_pushes op c :
  pushes o op c = true ->
  past (step v o op c) = kept (limitOf o) (past c ++ [present c]).
Proof.
  destruct op as [a| |]; simpl; intros Hp.
  - rewrite step_set_recorded by assumption. reflexivity.
  - discriminate.
  - destruct (future c) as [|x fs] eqn:E; [discriminate|].
    rewrite (@step_redo_cons _ _ o v c x fs E). reflexivity.
Qed.

(** A call that does not push never lengthens [past]. *)
Lemma step_no_push op c :
  pushes o op c = false ->
  (JsArray.len (past (step v o op c)) <= JsArray.len (past c))%Z.
Proof.
  destruct op as [a| |]; simpl; intros Hp.
  - destruct v.
    + rewrite step_set_unrecorded_first by assumption. lia.
    + rewrite step_set_unrecorded_second by assumption. simpl. lia.
  - destruct (snoc_cases (past c)) as [E|[ps [x E]]].
    + rewrite step_undo_nil by assumption. lia.
    + rewrite (@step_undo_snoc _ _ o v c ps x E). simpl. rewrite E, len_app.
      pose proof (len_nonneg [x]). unfold JsArray.len in *. simpl in *. lia.
  - destruct (future c) as [|x fs] eqn:E; [|discriminate].
    rewrite step_redo_nil by assumption. lia.
Qed.

Lemma step_bounded op c :
  (0 < limitOf o)%Z ->
  (JsArray.len (past c) <= limitOf o)%Z ->
  (JsArray.len (past (step v o op c)) <= limitOf o)%Z.
Proof.
  intros Hpos Hc. destruct (pushes o op c) eqn:Hp.
  - rewrite step_pushes by assumption. apply kept_len; assumption.
  - pose proof (step_no_push op c Hp). lia.
Qed.

Lemma run_bounded ops c :
  (0 < limitOf o)%Z ->
  (JsArray.len (past c) <= limitOf o)%Z ->
  (JsArray.len (past (run v o ops c)) <= limitOf o)%Z.
Proof.
  intros Hpos. revert c. induction ops as [|op ops IH]; intros c Hc.
  - exact Hc.
  - simpl. apply IH. apply step_bounded; assumption.
Qed.

Lemma sets_snoc (xs : list T) z : sets (xs ++ [z]) = sets xs ++ [DoSet (Direct z)].
Proof. unfold sets. rewrite map_app. reflexivity. Qed.

(** [n] recorded sets in a row: the history is the last [limit] of the
    values that were current before each call. *)
Lemma run_sets ys z c :
  (0 < limitOf o)%Z ->
  (forall p q, recordsOf o p q = true) ->
  run v o (sets (ys ++ [z])) c =
  mkCells (lastn (Z.to_nat (limitOf o)) (past c ++ present c :: ys)) z [].
Proof.
  intros Hpos Hrec. revert z. induction ys as [|y ys IH] using rev_ind; intros z.
  - simpl. rewrite step_set_recorded by apply Hrec.
    rewrite kept_pos by assumption. reflexivity.
  - rewrite sets_snoc, run_snoc, IH.
    rewrite step_set_recorded by apply Hrec. simpl.
    rewrite kept_pos, lastn_app_lastn by assumption.
    rewrite <- app_assoc. reflexivity.
Qed.

Lemma firstn_succ_snoc (l : list T) j d :
  j < length l -> firstn (S j) l = firstn j l ++ [nth j l d].
Proof.
  revert j. induction l as [|x l IH]; intros j Hj; simpl in Hj; [lia|].
  destruct j as [|j]; [reflexivity|].
  change (firstn (S (S j)) (x :: l)) with (x :: firstn (S j) l).
  rewrite (IH j) by lia. reflexivity.
Qed.

(** [k] undos walk back through [past], as long as it has entries. *)
Lemma undos_walk k c d :
  k <= length (past c) ->
  past (undos v o k c) = firstn (length (past c) - k) (past c) /\
  present (undos v o k c) = nth (length (past c) - k) (past c ++ [present c]) d.
Proof.
  induction k as [|k IH]; intros Hk.
  - simpl. rewrite Nat.sub_0_r, firstn_all, nth_middle. auto.
  - destruct IH as [IHp IHx]; [lia|].
    rewrite undos_succ.
    assert (E : past (undos v o k c) =
                firstn (length (past c) - S k) (past c) ++
                [nth (length (past c) - S k) (past c) d]).
    { rewrite IHp. replace (length (past c) - k) with (S (length (past c) - S k)) by lia.
      apply firstn_succ_snoc. lia. }
    rewrite (@step_undo_snoc _ _ o v _ _ _ E). simpl. split; [reflexivity|].
    rewrite app_nth1 by lia. reflexivity.
Qed.
End RunFacts.

(** ** The two versions side by side *)

Section Versions.
Context {T : Type} `{StrictEq T}.
Variable o : TemporalOptions T.
Implicit Types (c : Cells T) (op : Op T).

(** [undo], [redo] and every recorded [set] give the same cells in both
    versions; only the unrecorded [set] is left out. *)
Lemma versions_agree op c :
  (forall a, op = DoSet a -> recordsOf o (present c) (candidate a c) = true) ->
  step First o op c = step Second o op c.
Proof.
  intros Hrec. destruct op as [a| |].
  - rewrite !step_set_recorded by (apply Hrec; reflexivity). reflexivity.
  - destruct (snoc_cases (past c)) as [E|[ps [x E]]].
    + rewrite !step_undo_nil by assumption. reflexivity.
    + rewrite !(@step_undo_snoc _ _ o _ c ps x E). reflexivity.
  - destruct (future c) as [|x fs] eqn:E.
    + rewrite !step_redo_nil by assumption. reflexivity.
    + rewrite !(@step_redo_cons _ _ o _ c x fs E). reflexivity.
Qed.

(** With limit zero a recorded [set] drops nothing from [past]. *)
Lemma set_recorded_limit_zero v a c :
  limitOf o = 0%Z ->
  recordsOf o (present c) (candidate a c) = true ->
  past (step v o (DoSet a) c) = past c ++ [present c].
Proof.
  intros Hz Hrec. rewrite step_set_recorded by assumption. simpl.
  rewrite Hz. apply kept_zero.
Qed.
End Versions.

(** ** The claims of the specification *)

Section Claims.
Context {T : Type} `{StrictEq T}.
Implicit Types (v : Version) (o : TemporalOptions T) (c : Cells T).

(** C3.  For a positive limit, after any sequence of [set], [undo] and
    [redo] calls on a freshly mounted hook [past] holds at most [limit]
    entries; and the next call that pushes onto [past] stores the last
    [limit] entries of the pushed array, so what is dropped is dropped from
    the front (the oldest entries). *)
Theorem past_bounded_by_limit v o (ops : list (Op T)) (initialValue : T) :
  (0 < limitOf o)%Z ->
  let c := run v o ops (React.mount initialValue) in
  (JsArray.len (past c) <= limitOf o)%Z /\
  forall op, pushes o op c = true ->
    past (step v o op c) = lastn (Z.to_nat (limitOf o)) (past c ++ [present c]).
Proof.
  intros Hpos c. split.
  - apply run_bounded; [assumption|]. unfold JsArray.len. simpl. lia.
  - intros op Hp. rewrite step_pushes by assumption. apply kept_pos; assumption.
Qed.

(** C4.  A [set] whose candidate the predicate accepts leaves [future]
    empty; in particular after [set(a); undo(); set(b)], both sets
    accepted, [canRedo] is false. *)
Theorem recorded_set_clears_future v o (a : SetArg T) c :
  recordsOf o (present c) (candidate a c) = true ->
  future (step v o (DoSet a) c) = [] /\
  canRedo v o (step v o (DoSet a) c) = false /\
  forall b : SetArg T,
    let c2 := run v o [DoSet a; DoUndo] c in
    recordsOf o (present c2) (candidate b c2) = true ->
    canRedo v o (run v o [DoSet a; DoUndo; DoSet b] c) = false.
Proof.
  intros Hrec.
  assert (Hclear : forall a' c', recordsOf o (present c') (candidate a' c') = true ->
                                 future (step v o (DoSet a') c') = []).
  { intros a' c' Ha. rewrite step_set_recorded by assumption. reflexivity. }
  split; [apply Hclear; assumption|]. split.
  - apply canRedo_false. apply Hclear; assumption.
  - intros b c2 Hb. apply canRedo_false.
    change (run v o [DoSet a; DoUndo; DoSet b] c) with (step v o (DoSet b) c2).
    apply Hclear; assumption.
Qed.

(** C5.  Round trip.  With a positive limit, from cells whose present is
    [p], a [set] of an accepted value [x] followed by [undo] shows [p]
    again and leaves [x] at the front of [future]; a [redo] then shows that
    same [x]. *)
Theorem set_undo_redo_round_trip v o (a : SetArg T) c :
  (0 < limitOf o)%Z ->
  recordsOf o (present c) (candidate a c) = true ->
  let x := candidate a c in
  let c1 := step v o (DoSet a) c in
  let c2 := step v o DoUndo c1 in
  let c3 := step v o DoRedo c2 in
  state v o c1 = x /\
  state v o c2 = present c /\
  future c2 = [x] /\
  state v o c3 = x.
Proof.
  intros Hpos Hrec x c1 c2 c3.
  assert (E1 : c1 = mkCells (lastn (Z.to_nat (limitOf o) - 1) (past c) ++ [present c]) x []).
  { unfold c1. rewrite step_set_recorded by assumption.
    rewrite kept_pos, lastn_snoc by lia. reflexivity. }
  assert (E2 : c2 = mkCells (lastn (Z.to_nat (limitOf o) - 1) (past c)) (present c) [x]).
  { unfold c2. rewrite E1. erewrite step_undo_snoc by reflexivity. reflexivity. }
  assert (E3 : present c3 = x).
  { unfold c3. rewrite E2. erewrite step_redo_cons by reflexivity. reflexivity. }
  rewrite !state_present, E1, E2, E3. auto.
Qed.

(** C6.  With a positive limit and a predicate that accepts everything,
    after [n >= 1] calls [set(x1) ... set(xn)] on a hook mounted with [x0]:
    [canUndo] is true; for every [k <= min n limit], [k] undos show the
    value that was current [k] sets ago, and fewer than [min n limit]
    undos leave [canUndo] true; after [min n limit] undos [canUndo] is
    false and a further undo changes nothing.  (The values need not be
    distinct for this to hold.) *)
Theorem sets_then_undos v o (x0 : T) (xs : list T) :
  (0 < limitOf o)%Z ->
  (forall p q, recordsOf o p q = true) ->
  xs <> [] ->
  let n := length xs in
  let m := Nat.min n (Z.to_nat (limitOf o)) in
  let c := run v o (sets xs) (React.mount x0) in
  canUndo v o c = true /\
  (forall k, k <= m ->
     state v o (undos v o k c) = nth (n - k) (x0 :: xs) x0 /\
     (k < m -> canUndo v o (undos v o k c) = true)) /\
  canUndo v o (undos v o m c) = false /\
  undos v o (S m) c = undos v o m c.
Proof.
  intros Hpos Hrec Hne n m c.
  destruct (snoc_cases xs) as [E|[ys [z E]]]; [contradiction|].
  assert (Hn : n = S (length ys)).
  { unfold n. rewrite E, length_app. simpl. lia. }
  set (P := lastn (Z.to_nat (limitOf o)) (x0 :: ys)).
  assert (Ec : c = mkCells P z []).
  { unfold c. rewrite E, run_sets by assumption. reflexivity. }
  assert (HP : length P = m).
  { unfold P. rewrite lastn_length. simpl length. lia. }
  assert (Hm : 0 < m) by lia.
  assert (Epz : P ++ [z] = skipn (n - m) (x0 :: xs)).
  { rewrite E. change (x0 :: ys ++ [z]) with ((x0 :: ys) ++ [z]).
    rewrite skipn_app. simpl length.
    replace (n - m - S (length ys)) with 0 by lia. simpl (skipn 0 _).
    unfold P, lastn. do 2 f_equal. simpl length. lia. }
  assert (Hwalk : forall k, k <= m ->
            past (undos v o k c) = firstn (m - k) P /\
            present (undos v o k c) = nth (n - k) (x0 :: xs) x0).
  { intros k Hk. destruct (@undos_walk _ _ v o k c x0) as [Wp Wx].
    - rewrite Ec. simpl. lia.
    - rewrite Wp, Wx, Ec. simpl past. simpl present. rewrite HP. split; [reflexivity|].
      rewrite Epz, nth_skipn. f_equal. lia. }
  split; [|split; [|split]].
  - apply canUndo_true. rewrite Ec. simpl. intros E0.
    rewrite E0 in HP. simpl in HP. lia.
  - intros k Hk. destruct (Hwalk k Hk) as [Wp Wx]. split.
    + rewrite state_present. exact Wx.
    + intros Hlt. apply canUndo_true. rewrite Wp. intros E0.
      apply (f_equal (@length T)) in E0. rewrite length_firstn in E0.
      simpl in E0. lia.
  - apply canUndo_false. destruct (Hwalk m (le_n m)) as [Wp _].
    rewrite Wp, Nat.sub_diag. reflexivity.
  - rewrite undos_succ. apply step_undo_nil.
    destruct (Hwalk m (le_n m)) as [Wp _].
    rewrite Wp, Nat.sub_diag. reflexivity.
Qed.

(** C8.  With a non-empty [past], [undo] takes the last element off
    [past] and makes it the present, and puts the old present at the front
    of [future]: [past] is one shorter and [future] one longer, whatever
    the limit ([future] is never trimmed). *)
Theorem undo_moves_one_entry v o c :
  past c <> [] ->
  let c' := step v o DoUndo c in
  past c = past c' ++ [present c'] /\
  future c' = present c :: future c /\
  length (past c') + 1 = length (past c) /\
  length (future c') = length (future c) + 1.
Proof.
  intros Hne c'. destruct (snoc_cases (past c)) as [E|[ps [x E]]]; [contradiction|].
  unfold c'. rewrite (@step_undo_snoc _ _ o v c ps x E). simpl.
  rewrite E, length_app. simpl. repeat split; lia.
Qed.

(** C9.  With an empty [past], [undo] leaves the three cells (and so
    [state], [canUndo] and [canRedo]) as they are; with an empty [future]
    so does [redo].  Both calls return normally: the callbacks are total. *)
Theorem undo_redo_noop v o c :
  (past c = [] -> step v o DoUndo c = c) /\
  (future c = [] -> step v o DoRedo c = c).
Proof.
  split; intros E.
  - apply step_undo_nil; assumption.
  - apply step_redo_nil; assumption.
Qed.

(** C10.  [undo] leaves the timeline [past ++ [present] ++ future] as it
    is, and so does [redo] when [past] holds fewer than [limit] entries. *)
Theorem timeline_preserved v o c :
  timeline (step v o DoUndo c) = timeline c /\
  ((JsArray.len (past c) < limitOf o)%Z ->
   timeline (step v o DoRedo c) = timeline c).
Proof.
  split.
  - destruct (snoc_cases (past c)) as [E|[ps [x E]]].
    + rewrite step_undo_nil by assumption. reflexivity.
    + rewrite (@step_undo_snoc _ _ o v c ps x E). unfold timeline. simpl.
      rewrite E, <- app_assoc. reflexivity.
  - intros Hlt. destruct (future c) as [|x fs] eqn:E.
    + rewrite step_redo_nil by assumption. reflexivity.
    + rewrite (@step_redo_cons _ _ o v c x fs E). unfold timeline. simpl.
      rewrite kept_fits, E, <- app_assoc; [reflexivity|].
      rewrite len_app. unfold JsArray.len in *. simpl. lia.
Qed.
End Claims.

(** ** Where the first version leaves the second *)

(** C1.  In the first version a [set] that the predicate rejects returns
    [prevPresent] from the updater: on a hook mounted with [0] whose
    predicate always answers [false], [set(1)] leaves [state] at [0].  The
    second version stores the candidate: [state] is [1] there, with [past]
    and [future] as before. *)
Theorem set_unrecorded_first_keeps_state :
  recordsOf neverRecord 0%Z 1%Z = false /\
  state First neverRecord
    (step First neverRecord (DoSet (Direct 1%Z)) (React.mount 0%Z)) = 0%Z /\
  step Second neverRecord (DoSet (Direct 1%Z)) (React.mount 0%Z) =
    mkCells [] 1%Z [].
Proof. repeat split. Qed.

(** C2.  The two versions do not compute the same transition: they part
    on a [set] that the predicate rejects (the first keeps the old present,
    the second stores the candidate). *)
Theorem versions_differ_on_unrecorded_set :
  let c1 := step First neverRecord (DoSet (Direct 1%Z)) (React.mount 0%Z) in
  let c2 := step Second neverRecord (DoSet (Direct 1%Z)) (React.mount 0%Z) in
  c1 = mkCells [] 0%Z [] /\ c2 = mkCells [] 1%Z [] /\ c1 <> c2.
Proof.
  repeat split. intros E. apply (f_equal (@present Z)) in E. discriminate E.
Qed.

(** C7.  With [limit = 0] the pushed entry is not evicted: [slice(-0)] is
    [slice(0)], the whole array.  After [set(1)] on a hook mounted with [0]
    [past] is [[0]] and [canUndo] is true; after [set(2)] [past] holds two
    entries.  Both versions do so. *)
Theorem limit_zero_keeps_history (v : Version) :
  let c1 := step v limit0 (DoSet (Direct 1%Z)) (React.mount 0%Z) in
  let c2 := step v limit0 (DoSet (Direct 2%Z)) c1 in
  past c1 = [0%Z] /\ canUndo v limit0 c1 = true /\
  past c2 = [0%Z; 1%Z] /\
  state v limit0 (step v limit0 DoUndo c2) = 1%Z.
Proof. destruct v; repeat split. Qed.

(** ** The scenarios of the test-suite, on the second version *)

Example mount_reads :
  let c := React.mount 0%Z in
  state Second limit3 c = 0%Z /\ canUndo Second limit3 c = false /\
  canRedo Second limit3 c = false.
Proof. repeat split. Qed.

Example set_undo_redo_reads (v : Version) :
  let o := mkOptions None None in
  let c1 := step v o (DoSet (Direct 1%Z)) (React.mount 0%Z) in
  let c2 := step v o DoUndo c1 in
  let c3 := step v o DoRedo c2 in
  (state v o c1, canUndo v o c1, canRedo v o c1) = (1%Z, true, false) /\
  (state v o c2, canUndo v o c2, canRedo v o c2) = (0%Z, false, true) /\
  (state v o c3, canUndo v o c3, canRedo v o c3) = (1%Z, true, false).
Proof. destruct v; repeat split. Qed.

Example history_limit_three (v : Version) :
  let c := run v limit3 (sets [1; 2; 3; 4]%Z) (React.mount 0%Z) in
  c = mkCells [1; 2; 3]%Z 4%Z [] /\
  state v limit3 (step v limit3 DoUndo c) = 3%Z /\
  undos v limit3 3 c = mkCells [] 1%Z [2; 3; 4]%Z /\
  undos v limit3 4 c = undos v limit3 3 c.
Proof. destruct v; repeat split. Qed.

(** ** The theorems at concrete inputs *)

Lemma past_bounded_by_limit_witness :
  (0 < limitOf limit3)%Z /\
  let c := run First limit3 (sets [1; 2; 3; 4]%Z ++ [DoUndo; DoRedo])
             (React.mount 0%Z) in
  (JsArray.len (past c) <= limitOf limit3)%Z /\
  forall op, pushes limit3 op c = true ->
    past (step First limit3 op c) =
    lastn (Z.to_nat (limitOf limit3)) (past c ++ [present c]).
Proof.
  split; [reflexivity|].
  apply (@past_bounded_by_limit Z _ First limit3
           (sets [1; 2; 3; 4]%Z ++ [DoUndo; DoRedo]) 0%Z).
  reflexivity.
Defined.

Lemma recorded_set_clears_future_witness :
  let o := mkOptions (T := Z) None None in
  let c := mkCells [0%Z] 1%Z [2%Z] in
  recordsOf o (present c) (candidate (Direct 5%Z) c) = true /\
  future (step Second o (DoSet (Direct 5%Z)) c) = [] /\
  canRedo Second o (step Second o (DoSet (Direct 5%Z)) c) = false /\
  forall b : SetArg Z,
    let c2 := run Second o [DoSet (Direct 5%Z); DoUndo] c in
    recordsOf o (present c2) (candidate b c2) = true ->
    canRedo Second o (run Second o [DoSet (Direct 5%Z); DoUndo; DoSet b] c) = false.
Proof.
  intros o c. split; [reflexivity|].
  apply (@recorded_set_clears_future Z _ Second o (Direct 5%Z) c).
  reflexivity.
Defined.

Lemma set_undo_redo_round_trip_witness :
  let o := limit3 in
  let c := mkCells [1; 2; 3]%Z 4%Z [9%Z] in
  let a := Functional (fun p => (p + 1)%Z) in
  (0 < limitOf o)%Z /\
  recordsOf o (present c) (candidate a c) = true /\
  let x := candidate a c in
  let c1 := step First o (DoSet a) c in
  let c2 := step First o DoUndo c1 in
  let c3 := step First o DoRedo c2 in
  state First o c1 = x /\
  state First o c2 = present c /\
  future c2 = [x] /\
  state First o c3 = x.
Proof.
  intros o c a. split; [reflexivity|]. split; [reflexivity|].
  apply (@set_undo_redo_round_trip Z _ First o a c); reflexivity.
Defined.

Lemma sets_then_undos_witness :
  let o := alwaysRecord 3 in
  let xs := [1; 2; 3; 4]%Z in
  (0 < limitOf o)%Z /\
  (forall p q, recordsOf o p q = true) /\
  xs <> [] /\
  let n := length xs in
  let m := Nat.min n (Z.to_nat (limitOf o)) in
  let c := run Second o (sets xs) (React.mount 0%Z) in
  canUndo Second o c = true /\
  (forall k, k <= m ->
     state Second o (undos Second o k c) = nth (n - k) (0%Z :: xs) 0%Z /\
     (k < m -> canUndo Second o (undos Second o k c) = true)) /\
  canUndo Second o (undos Second o m c) = false /\
  undos Second o (S m) c = undos Second o m c.
Proof.
  intros o xs.
  split; [reflexivity|]. split; [intros p q; reflexivity|].
  split; [discriminate|].
  apply (@sets_then_undos Z _ Second o 0%Z xs);
    [reflexivity | intros p q; reflexivity | discriminate].
Defined.

Lemma undo_moves_one_entry_witness :
  let c := mkCells [1; 2]%Z 3%Z [4%Z] in
  past c <> [] /\
  let c' := step First limit0 DoUndo c in
  past c = past c' ++ [present c'] /\
  future c' = present c :: future c /\
  length (past c') + 1 = length (past c) /\
  length (future c') = length (future c) + 1.
Proof.
  intros c. split; [discriminate|].
  apply (@undo_moves_one_entry Z _ First limit0 c). discriminate.
Defined.

Lemma undo_redo_noop_witness :
  let c := React.mount 7%Z in
  step Second limit3 DoUndo c = c /\ step Second limit3 DoRedo c = c.
Proof.
  intros c. split.
  - apply (proj1 (@undo_redo_noop Z _ Second limit3 c)). reflexivity.
  - apply (proj2 (@undo_redo_noop Z _ Second limit3 c)). reflexivity.
Defined.

Lemma timeline_preserved_witness :
  let c := mkCells [1; 2]%Z 3%Z [4; 5]%Z in
  (JsArray.len (past c) < limitOf limit3)%Z /\
  timeline (step First limit3 DoUndo c) = timeline c /\
  timeline (step First limit3 DoRedo c) = timeline c.
Proof.
  intros c. split; [reflexivity|]. split.
  - apply (proj1 (@timeline_preserved Z _ First limit3 c)).
  - apply (proj2 (@timeline_preserved Z _ First limit3 c)). reflexivity.
Defined.

(** * Further properties of the hook *)

(** ** More on the stored history *)

Section KeptFacts.
Context {A : Type}.
Implicit Types (a : list A).

(** A negative limit: [slice(-limit)] drops [-limit] entries from the
    front, whatever the length. *)
Lemma kept_neg (limit : Z) a :
  (limit < 0)%Z -> kept limit a = skipn (Z.to_nat (- limit)) a.
Proof.
  intros Hneg. unfold kept, JsArray.len. rewrite Z.gtb_ltb.
  destruct (Z.ltb_spec limit (Z.of_nat (length a))) as [_|Hge]; [|lia].
  unfold JsArray.slice. rewrite relative_nonneg by lia.
  rewrite firstn_all2 by (rewrite length_skipn; lia).
  destruct (Z.le_gt_cases (- limit) (Z.of_nat (length a))) as [Hle|Hgt].
  - f_equal. lia.
  - rewrite !skipn_all2 by lia. reflexivity.
Qed.

Lemma Forall_firstn (P : A -> Prop) n a : Forall P a -> Forall P (firstn n a).
Proof.
  intros Ha. rewrite <- (firstn_skipn n a) in Ha.
  apply Forall_app in Ha. apply Ha.
Qed.

Lemma Forall_skipn (P : A -> Prop) n a : Forall P a -> Forall P (skipn n a).
Proof.
  intros Ha. rewrite <- (firstn_skipn n a) in Ha.
  apply Forall_app in Ha. apply Ha.
Qed.

(** Whatever the limit, what is stored was in the pushed array. *)
Lemma Forall_kept (P : A -> Prop) (limit : Z) a :
  Forall P a -> Forall P (kept limit a).
Proof.
  intros Ha. unfold kept. destruct (JsArray.len a >? limit)%Z; [|assumption].
  unfold JsArray.slice. apply Forall_firstn, Forall_skipn, Ha.
Qed.
End KeptFacts.

(** ** One call: what it keeps *)

Section CallFacts.
Context {T : Type} `{StrictEq T}.
Variable v : Version.
Variable o : TemporalOptions T.
Implicit Types (c : Cells T) (op : Op T).

Lemma step_undo_timeline c : timeline (step v o DoUndo c) = timeline c.
Proof.
  destruct (snoc_cases (past c)) as [E|[ps [x E]]].
  - rewrite step_undo_nil by assumption. reflexivity.
  - rewrite (@step_undo_snoc _ _ o v c ps x E). unfold timeline. simpl.
    rewrite E, <- app_assoc. reflexivity.
Qed.

Lemma step_redo_timeline c :
  (JsArray.len (past c) + JsArray.len (future c) <= limitOf o)%Z ->
  timeline (step v o DoRedo c) = timeline c.
Proof.
  intros Hfit. destruct (future c) as [|x fs] eqn:E.
  - rewrite step_redo_nil by assumption. reflexivity.
  - rewrite (@step_redo_cons _ _ o v c x fs E). unfold timeline. simpl.
    rewrite kept_fits, E, <- app_assoc; [reflexivity|].
    rewrite len_app. unfold JsArray.len in *. simpl in *. lia.
Qed.

(** The room left under the limit is kept by [undo] and [redo]. *)
Lemma step_navigates_fits op c :
  navigates op = true ->
  (JsArray.len (past c) + JsArray.len (future c) <= limitOf o)%Z ->
  (JsArray.len (past (step v o op c)) + JsArray.len (future (step v o op c))
   <= limitOf o)%Z.
Proof.
  intros Hnav Hfit. destruct op as [a| |]; [discriminate| |].
  - destruct (snoc_cases (past c)) as [E|[ps [x E]]].
    + rewrite step_undo_nil by assumption. exact Hfit.
    + rewrite (@step_undo_snoc _ _ o v c ps x E). simpl.
      rewrite E, len_app in Hfit. unfold JsArray.len in *. simpl in *. lia.
  - destruct (future c) as [|x fs] eqn:E.
    + rewrite step_redo_nil by assumption. rewrite E. exact Hfit.
    + rewrite (@step_redo_cons _ _ o v c x fs E). simpl.
      rewrite kept_fits; rewrite len_app; unfold JsArray.len in *;
        simpl in *; lia.
Qed.

Lemma step_set_fits (a : SetArg T) c :
  (0 < limitOf o)%Z ->
  (JsArray.len (past c) + JsArray.len (future c) <= limitOf o)%Z ->
  (JsArray.len (past (step v o (DoSet a) c)) +
   JsArray.len (future (step v o (DoSet a) c)) <= limitOf o)%Z.
Proof.
  intros Hpos Hfit.
  destruct (recordsOf o (present c) (candidate a c)) eqn:Hrec.
  - rewrite step_set_recorded by assumption. simpl.
    pose proof (kept_len (past c ++ [present c]) Hpos).
    unfold JsArray.len in *. simpl. lia.
  - destruct v.
    + rewrite step_set_unrecorded_first by assumption. exact Hfit.
    + rewrite step_set_unrecorded_second by assumption. exact Hfit.
Qed.

Lemma step_fits op c :
  (0 < limitOf o)%Z ->
  (JsArray.len (past c) + JsArray.len (future c) <= limitOf o)%Z ->
  (JsArray.len (past (step v o op c)) + JsArray.len (future (step v o op c))
   <= limitOf o)%Z.
Proof.
  intros Hpos Hfit. destruct op as [a| |].
  - apply step_set_fits; assumption.
  - apply step_navigates_fits; [reflexivity | assumption].
  - apply step_navigates_fits; [reflexivity | assumption].
Qed.

Lemma run_fits ops c :
  (0 < limitOf o)%Z ->
  (JsArray.len (past c) + JsArray.len (future c) <= limitOf o)%Z ->
  (JsArray.len (past (run v o ops c)) + JsArray.len (future (run v o ops c))
   <= limitOf o)%Z.
Proof.
  intros Hpos. revert c. induction ops as [|op ops IH]; intros c Hfit.
  - exact Hfit.
  - simpl. apply IH. apply step_fits; assumption.
Qed.

(** [redo] undoes an [undo] when [past] was within the limit. *)
Lemma redo_undo_id c :
  past c <> [] ->
  (JsArray.len (past c) <= limitOf o)%Z ->
  step v o DoRedo (step v o DoUndo c) = c.
Proof.
  intros Hne Hfit.
  destruct (snoc_cases (past c)) as [E|[ps [x E]]]; [contradiction|].
  rewrite (@step_undo_snoc _ _ o v c ps x E).
  erewrite step_redo_cons by reflexivity. simpl.
  rewrite kept_fits by (rewrite <- E; exact Hfit).
  rewrite <- E. apply cells_eta.
Qed.

(** [undo] undoes a [redo] when [past] had room for one more entry. *)
Lemma undo_redo_id c :
  future c <> [] ->
  (JsArray.len (past c) < limitOf o)%Z ->
  step v o DoUndo (step v o DoRedo c) = c.
Proof.
  intros Hne Hfit. destruct (future c) as [|x fs] eqn:E; [contradiction|].
  rewrite (@step_redo_cons _ _ o v c x fs E).
  rewrite kept_fits
    by (rewrite len_app; unfold JsArray.len in *; simpl; lia).
  erewrite step_undo_snoc by reflexivity. simpl.
  rewrite <- E. apply cells_eta.
Qed.

Lemma redos_succ k c : redos v o (S k) c = step v o DoRedo (redos v o k c).
Proof. reflexivity. Qed.

Lemma undos_succ_r k c : undos v o (S k) c = undos v o k (step v o DoUndo c).
Proof. unfold undos. apply Nat.iter_succ_r. Qed.

Lemma redos_succ_r k c : redos v o (S k) c = redos v o k (step v o DoRedo c).
Proof. unfold redos. apply Nat.iter_succ_r. Qed.

(** [k] redos, with room under the limit, move [k] entries of [future]. *)
Lemma redos_lengths k c :
  k <= length (future c) ->
  (JsArray.len (past c) + Z.of_nat k <= limitOf o)%Z ->
  length (past (redos v o k c)) = length (past c) + k /\
  length (future (redos v o k c)) = length (future c) - k.
Proof.
  induction k as [|k IH]; intros Hk Hfit.
  - simpl. lia.
  - destruct IH as [IHp IHf]; [lia | lia |].
    rewrite redos_succ.
    destruct (future (redos v o k c)) as [|x fs] eqn:E;
      [simpl in IHf; lia|].
    rewrite (@step_redo_cons _ _ o v _ x fs E). simpl.
    rewrite kept_fits.
    + rewrite length_app. simpl in *. lia.
    + rewrite len_app. unfold JsArray.len in *. simpl. lia.
Qed.
End CallFacts.

(** ** The rejected [set], the defaults and the limit *)

Section Settings.
Context {T : Type} `{StrictEq T}.
Implicit Types (v : Version) (o : TemporalOptions T) (c : Cells T) (op : Op T).

(** X1.  A [set] whose candidate the predicate rejects: the first version
    leaves all three cells as they are (the call does nothing); the second
    version stores the candidate as the present and leaves [past] and
    [future] as they are. *)
Theorem rejected_set_by_version o (a : SetArg T) c :
  recordsOf o (present c) (candidate a c) = false ->
  step First o (DoSet a) c = c /\
  step Second o (DoSet a) c = mkCells (past c) (candidate a c) (future c).
Proof.
  intros Hrej. split.
  - apply step_set_unrecorded_first; assumption.
  - apply step_set_unrecorded_second; assumption.
Qed.

Lemma step_rejected_same v o (a : SetArg T) c :
  recordsOf o (present c) (candidate a c) = false ->
  present c = candidate a c ->
  step v o (DoSet a) c = c.
Proof.
  intros Hrej Esame. destruct v.
  - apply step_set_unrecorded_first; assumption.
  - rewrite step_set_unrecorded_second by assumption.
    rewrite <- Esame. apply cells_eta.
Qed.

(** X2.  Under the default predicate [prev !== next], with [===] telling
    the truth about the values, a [set] to a value strictly equal to the
    present changes nothing: no history entry, [future] kept, same state. *)
Theorem same_value_set_changes_nothing v o (a : SetArg T) c :
  shouldAddToHistory o = None ->
  (forall p q : T, strictEq p q = true -> p = q) ->
  strictEq (present c) (candidate a c) = true ->
  step v o (DoSet a) c = c.
Proof.
  intros Hdef Hsound Heq. apply step_rejected_same.
  - unfold recordsOf. rewrite Hdef, Heq. reflexivity.
  - apply Hsound; assumption.
Qed.

Lemma step_versions_agree o op c :
  (forall p q : T, recordsOf o p q = false -> p = q) ->
  step First o op c = step Second o op c.
Proof.
  intros Honly.
  destruct op as [a| |]; try (apply versions_agree; intros a' E; discriminate E).
  destruct (recordsOf o (present c) (candidate a c)) eqn:Hrec.
  - apply versions_agree. intros a' E. injection E as <-. exact Hrec.
  - rewrite !step_rejected_same; auto.
Qed.

(** X3.  When the predicate rejects a candidate only if it is the present
    itself (as the default one does), the two versions go through the same
    cells on every sequence of calls. *)
Theorem versions_agree_on_runs o (ops : list (Op T)) c :
  (forall p q : T, recordsOf o p q = false -> p = q) ->
  run First o ops c = run Second o ops c.
Proof.
  intros Honly. revert c. induction ops as [|op ops IH]; intros c.
  - reflexivity.
  - simpl. rewrite step_versions_agree by assumption. apply IH.
Qed.

Lemma step_negative_limit v o op c :
  (limitOf o < 0)%Z ->
  past c = [] -> future c = [] ->
  past (step v o op c) = [] /\ future (step v o op c) = [].
Proof.
  intros Hneg Hp Hf. destruct op as [a| |].
  - destruct (recordsOf o (present c) (candidate a c)) eqn:Hrec.
    + rewrite step_set_recorded by assumption. simpl. split; [|reflexivity].
      rewrite Hp, kept_neg by assumption. simpl app.
      apply skipn_all2. simpl. lia.
    + destruct v.
      * rewrite step_set_unrecorded_first by assumption. auto.
      * rewrite step_set_unrecorded_second by assumption. auto.
  - rewrite step_undo_nil by assumption. auto.
  - rewrite step_redo_nil by assumption. auto.
Qed.

(** X4.  With a negative limit every pushed entry is dropped at once:
    whatever is called on a mounted hook, [past] and [future] stay empty
    and [canUndo] and [canRedo] stay false. *)
Theorem negative_limit_disables_history v o (ops : list (Op T)) (x : T) :
  (limitOf o < 0)%Z ->
  let c := run v o ops (React.mount x) in
  past c = [] /\ future c = [] /\
  canUndo v o c = false /\ canRedo v o c = false.
Proof.
  intros Hneg c.
  assert (Hinv : forall ops' c', past c' = [] -> future c' = [] ->
            past (run v o ops' c') = [] /\ future (run v o ops' c') = []).
  { induction ops' as [|op ops' IH]; intros c' Hp Hf; [auto|].
    simpl. destruct (@step_negative_limit v o op c' Hneg Hp Hf).
    apply IH; assumption. }
  destruct (Hinv ops (React.mount x)) as [Hp Hf]; try reflexivity.
  repeat split; try assumption.
  - apply canUndo_false; assumption.
  - apply canRedo_false; assumption.
Qed.

(** X5.  With limit zero no call ever evicts: a recorded [set] and a
    [redo] that has a future append the present to [past] and keep all the
    older entries. *)
Theorem limit_zero_never_evicts v o op c :
  limitOf o = 0%Z ->
  pushes o op c = true ->
  past (step v o op c) = past c ++ [present c].
Proof.
  intros Hz Hp. rewrite step_pushes by assumption. rewrite Hz. apply kept_zero.
Qed.
End Settings.

(** ** Moving along the timeline *)

Section Navigation.
Context {T : Type} `{StrictEq T}.
Implicit Types (v : Version) (o : TemporalOptions T) (c : Cells T) (op : Op T).

(** X6.  [k] undos followed by [k] redos give back the very same cells,
    when [past] has at least [k] entries and is within the limit. *)
Theorem undos_then_redos_restore v o (k : nat) c :
  k <= length (past c) ->
  (JsArray.len (past c) <= limitOf o)%Z ->
  redos v o k (undos v o k c) = c.
Proof.
  induction k as [|k IH]; intros Hk Hfit; [reflexivity|].
  rewrite undos_succ, redos_succ_r.
  destruct (@undos_walk _ _ v o k c (present c)) as [Wp _]; [lia|].
  rewrite redo_undo_id.
  - apply IH; [lia | assumption].
  - rewrite Wp. intros E. apply (f_equal (@length T)) in E.
    rewrite length_firstn in E. simpl in E. lia.
  - rewrite Wp. unfold JsArray.len in *. rewrite length_firstn. lia.
Qed.

(** X7.  [k] redos followed by [k] undos give back the very same cells,
    when [future] has at least [k] entries and [past] has room for [k]
    more under the limit. *)
Theorem redos_then_undos_restore v o (k : nat) c :
  k <= length (future c) ->
  (JsArray.len (past c) + Z.of_nat k <= limitOf o)%Z ->
  undos v o k (redos v o k c) = c.
Proof.
  induction k as [|k IH]; intros Hk Hfit; [reflexivity|].
  rewrite redos_succ, undos_succ_r.
  destruct (@redos_lengths _ _ v o k c) as [Lp Lf]; [lia | lia |].
  rewrite undo_redo_id.
  - apply IH; lia.
  - intros E. rewrite E in Lf. simpl in Lf. lia.
  - unfold JsArray.len in *. rewrite Lp. lia.
Qed.

(** X8.  On a hook with a positive limit, wherever a sequence of calls
    from the mount has led, [past] and [future] together hold at most
    [limit] entries; so there [redo] never evicts, and [undo] and [redo]
    both leave the timeline [past ++ [present] ++ future] as it is. *)
Theorem reachable_history_fits v o (ops : list (Op T)) (x : T) :
  (0 < limitOf o)%Z ->
  let c := run v o ops (React.mount x) in
  (JsArray.len (past c) + JsArray.len (future c) <= limitOf o)%Z /\
  timeline (step v o DoUndo c) = timeline c /\
  timeline (step v o DoRedo c) = timeline c.
Proof.
  intros Hpos c.
  assert (Hfit : (JsArray.len (past c) + JsArray.len (future c) <= limitOf o)%Z).
  { apply run_fits; [assumption|]. unfold JsArray.len. simpl. lia. }
  split; [exact Hfit|]. split.
  - apply step_undo_timeline.
  - apply step_redo_timeline. exact Hfit.
Qed.

(** X9.  From cells whose [past] and [future] together fit the limit, any
    sequence of [undo] and [redo] calls keeps the timeline: no value is
    lost, duplicated or reordered. *)
Theorem navigation_keeps_timeline v o (ops : list (Op T)) c :
  forallb navigates ops = true ->
  (JsArray.len (past c) + JsArray.len (future c) <= limitOf o)%Z ->
  timeline (run v o ops c) = timeline c.
Proof.
  revert c. induction ops as [|op ops IH]; intros c Hnav Hfit; [reflexivity|].
  simpl in Hnav. apply andb_prop in Hnav. destruct Hnav as [Hop Hops].
  simpl. rewrite IH.
  - destruct op as [a| |]; [discriminate| |].
    + apply step_undo_timeline.
    + apply step_redo_timeline. exact Hfit.
  - exact Hops.
  - apply step_navigates_fits; assumption.
Qed.

Lemma step_respects v o (P : T -> Prop) op c :
  respects P op ->
  Forall P (timeline c) ->
  Forall P (timeline (step v o op c)).
Proof.
  intros Hop Hc. destruct op as [a| |].
  - assert (Hparts : Forall P (past c) /\ P (present c) /\ Forall P (future c)).
    { unfold timeline in Hc. apply Forall_app in Hc. destruct Hc as [Hp Hc].
      simpl in Hc. apply Forall_cons_iff in Hc. tauto. }
    destruct Hparts as [Hp [Hx Hf]].
    assert (Hcand : P (candidate a c)).
    { destruct a as [x|f]; simpl in *; auto. }
    destruct (recordsOf o (present c) (candidate a c)) eqn:Hrec.
    + rewrite step_set_recorded by assumption. unfold timeline. simpl.
      apply Forall_app. split.
      * apply Forall_kept. apply Forall_app. split; [assumption|].
        constructor; [assumption | constructor].
      * constructor; [assumption | constructor].
    + destruct v.
      * rewrite step_set_unrecorded_first by assumption. exact Hc.
      * rewrite step_set_unrecorded_second by assumption. unfold timeline.
        simpl. apply Forall_app. split; [assumption|].
        constructor; assumption.
  - rewrite step_undo_timeline. exact Hc.
  - destruct (future c) as [|x fs] eqn:E.
    + rewrite step_redo_nil by assumption. exact Hc.
    + rewrite (@step_redo_cons _ _ o v c x fs E).
      unfold timeline in *. rewrite E in Hc. simpl.
      apply Forall_app in Hc. destruct Hc as [Hp Hc]. simpl in Hc.
      apply Forall_cons_iff in Hc. destruct Hc as [Hx Hf].
      apply Forall_app. split; [|exact Hf].
      apply Forall_kept. apply Forall_app. split; [assumption|].
      constructor; [assumption | constructor].
Qed.

(** X10.  The hook stores only values it was given: a property that holds
    of every value of the timeline, and that every [set] of a sequence of
    calls respects, holds of every value of the timeline afterwards,
    whatever the limit and the predicate. *)
Theorem history_holds_given_values v o (P : T -> Prop) (ops : list (Op T)) c :
  Forall (respects P) ops ->
  Forall P (timeline c) ->
  Forall P (timeline (run v o ops c)).
Proof.
  intros Hops. revert c. induction Hops as [|op ops Hop Hops IH]; intros c Hc.
  - exact Hc.
  - simpl. apply IH. apply step_respects; assumption.
Qed.
End Navigation.

(** ** Several calls from one render *)

Section Batches.
Context {T : Type} `{StrictEq T}.
Implicit Types (o : TemporalOptions T) (c : Cells T) (op : Op T).

Lemma batch_snoc v o (ops : list (Op T)) op c :
  batch v o (ops ++ [op]) c =
  React.exec (call op (render v o c)) (batch v o ops c).
Proof. unfold batch. rewrite fold_left_app. reflexivity. Qed.

(** X11.  The first version's [set] reads nothing of its render (it takes
    the present from the updater's argument): any number of [set] calls
    made from one render act like the same calls made one render each, so
    a functional update sees the value the previous call stored. *)
Theorem first_version_sets_batch o (args : list (SetArg T)) c :
  batch First o (map DoSet args) c = run First o (map DoSet args) c.
Proof.
  unfold batch, run. cbv zeta. generalize c at 1 as c0.
  revert c. induction args as [|a args IH]; intros c c0; [reflexivity|].
  cbn [map fold_left]. rewrite IH. reflexivity.
Qed.

(** The second version's pushing calls write all three cells from what
    their render read. *)
Lemma second_version_push_exec o op c c' :
  pushes o op c = true ->
  React.exec (call op (render Second o c)) c' = step Second o op c.
Proof.
  intros Hp. destruct op as [a| |]; simpl in Hp.
  - rewrite step_set_recorded by assumption.
    destruct a; unfold candidate in Hp;
      cbv [call render React.exec V2.useTemporalState
           Api.set V2.set React.setPresent React.setPast React.setFuture
           React.resolve React.bind React.ret snd candidate];
      rewrite Hp; reflexivity.
  - discriminate.
  - destruct c as [p x f]. simpl in Hp. destruct f as [|y fs]; [discriminate|].
    reflexivity.
Qed.

(** X12.  In the second version a recorded [set], or a [redo] that has a
    future, made last from a render overwrites whatever the earlier calls
    of that render did: the cells end as if it had been the only call (an
    earlier [set] of the same render is lost, and a functional update sees
    the render's present, not the value set just before). *)
Theorem second_version_last_push_wins o (ops : list (Op T)) op c :
  pushes o op c = true ->
  batch Second o (ops ++ [op]) c = step Second o op c.
Proof.
  intros Hp. rewrite batch_snoc. apply second_version_push_exec. exact Hp.
Qed.

Lemma second_version_undo_exec o c c' ps x :
  past c = ps ++ [x] ->
  React.exec (call DoUndo (render Second o c)) c' =
  mkCells ps x (present c :: future c').
Proof.
  intros E. destruct c as [p y f]; simpl in E; subst p.
  assert (Hlen : (JsArray.len (ps ++ [x]) =? 0)%Z = false).
  { destruct (JsArray.len (ps ++ [x]) =? 0)%Z eqn:Hz; [|reflexivity].
    apply len_zero in Hz. destruct ps; discriminate. }
  cbv [call render React.exec V2.useTemporalState
       Api.undo V2.undo React.setPresent React.setPast
       React.setFuture React.resolve React.bind React.ret snd
       past present future].
  rewrite Hlen, index_last, slice_init. reflexivity.
Qed.

(** X13.  In the second version [undo] called [k + 1] times from one
    render goes back one entry only, and puts [k + 1] copies of the
    render's present at the front of [future]. *)
Theorem second_version_undos_batch o (k : nat) c :
  past c <> [] ->
  let c1 := step Second o DoUndo c in
  batch Second o (repeat DoUndo (S k)) c =
  mkCells (past c1) (present c1) (repeat (present c) (S k) ++ future c).
Proof.
  intros Hne c1.
  destruct (snoc_cases (past c)) as [E|[ps [x E]]]; [contradiction|].
  unfold c1. rewrite (@step_undo_snoc _ _ o Second c ps x E). simpl past.
  simpl present. induction k as [|k IH].
  - simpl repeat. change [DoUndo] with ([] ++ [@DoUndo T]).
    rewrite batch_snoc. apply second_version_undo_exec. exact E.
  - change (repeat DoUndo (S (S k))) with (@DoUndo T :: repeat DoUndo (S k)).
    rewrite repeat_cons, batch_snoc, IH.
    rewrite (@second_version_undo_exec o c _ ps x E). reflexivity.
Qed.
End Batches.

(** ** The flags after a move *)

Section Flags.
Context {T : Type} `{StrictEq T}.
Implicit Types (v : Version) (o : TemporalOptions T) (c : Cells T).

Lemma canRedo_true v o c : canRedo v o c = true <-> future c <> [].
Proof.
  destruct (canRedo v o c) eqn:E.
  - split; [|reflexivity]. intros _ Ef. apply (canRedo_false o v) in Ef. congruence.
  - apply canRedo_false in E. split; [discriminate | contradiction].
Qed.

(** X14.  When [canUndo] is true, [undo] shows the last entry of [past]
    and [canRedo] is true afterwards.  When [canRedo] is true and the limit
    is not negative, [redo] shows the first entry of [future] and
    [canUndo] is true afterwards. *)
Theorem flags_after_move v o c :
  (canUndo v o c = true ->
   canRedo v o (step v o DoUndo c) = true /\
   Some (state v o (step v o DoUndo c)) =
     JsArray.index (past c) (JsArray.len (past c) - 1)) /\
  (canRedo v o c = true -> (0 <= limitOf o)%Z ->
   canUndo v o (step v o DoRedo c) = true /\
   Some (state v o (step v o DoRedo c)) = JsArray.index (future c) 0).
Proof.
  split.
  - intros Hu. apply canUndo_true in Hu.
    destruct (snoc_cases (past c)) as [E|[ps [x E]]]; [contradiction|].
    rewrite (@step_undo_snoc _ _ o v c ps x E), state_present, E, index_last.
    split; [|reflexivity]. apply canRedo_true. discriminate.
  - intros Hr Hlim. apply canRedo_true in Hr.
    destruct (future c) as [|x fs] eqn:E; [contradiction|].
    rewrite (@step_redo_cons _ _ o v c x fs E), state_present.
    split; [|reflexivity]. apply canUndo_true. simpl.
    destruct (Z.eq_dec (limitOf o) 0) as [Ez|Enz].
    + rewrite Ez, kept_zero. destruct (past c); discriminate.
    + rewrite kept_pos, lastn_snoc by lia.
      destruct (lastn (Z.to_nat (limitOf o) - 1) (past c)); discriminate.
Qed.
End Flags.

(** ** The further theorems at concrete inputs *)

Lemma rejected_set_by_version_witness :
  let c := mkCells [0%Z] 1%Z [2%Z] in
  recordsOf neverRecord (present c) (candidate (Direct 5%Z) c) = false /\
  step First neverRecord (DoSet (Direct 5%Z)) c = c /\
  step Second neverRecord (DoSet (Direct 5%Z)) c = mkCells [0%Z] 5%Z [2%Z].
Proof.
  intros c. split; [reflexivity|].
  apply (@rejected_set_by_version Z _ neverRecord (Direct 5%Z) c). reflexivity.
Defined.

Lemma same_value_set_changes_nothing_witness :
  let c := mkCells [0%Z] 1%Z [2%Z] in
  let a := Functional (fun p => (p * 1)%Z) in
  (forall p q : Z, strictEq p q = true -> p = q) /\
  strictEq (present c) (candidate a c) = true /\
  step Second limit3 (DoSet a) c = c.
Proof.
  intros c a.
  assert (Hsound : forall p q : Z, strictEq p q = true -> p = q)
    by (intros p q E; apply Z.eqb_eq; exact E).
  split; [exact Hsound|]. split; [reflexivity|].
  apply (@same_value_set_changes_nothing Z _ Second limit3 a c);
    [reflexivity | exact Hsound | reflexivity].
Defined.

Lemma versions_agree_on_runs_witness :
  let ops := [DoSet (Direct 1%Z); DoSet (Direct 1%Z); DoUndo;
              DoSet (Functional (fun p => (p + 2)%Z)); DoUndo; DoRedo] in
  (forall p q : Z, recordsOf limit3 p q = false -> p = q) /\
  run First limit3 ops (React.mount 0%Z) = run Second limit3 ops (React.mount 0%Z).
Proof.
  intros ops.
  assert (Honly : forall p q : Z, recordsOf limit3 p q = false -> p = q).
  { intros p q E. apply Z.eqb_eq. apply negb_false_iff. exact E. }
  split; [exact Honly|].
  apply (@versions_agree_on_runs Z _ limit3 ops (React.mount 0%Z) Honly).
Defined.

Lemma negative_limit_disables_history_witness :
  let o := mkOptions (T := Z) (Some (-2)%Z) None in
  let c := run First o [DoSet (Direct 1%Z); DoSet (Direct 2%Z); DoUndo]
             (React.mount 0%Z) in
  (limitOf o < 0)%Z /\
  past c = [] /\ future c = [] /\
  canUndo First o c = false /\ canRedo First o c = false.
Proof.
  intros o c. split; [reflexivity|].
  apply (@negative_limit_disables_history Z _ First o
           [DoSet (Direct 1%Z); DoSet (Direct 2%Z); DoUndo] 0%Z).
  reflexivity.
Defined.

Lemma limit_zero_never_evicts_witness :
  let c := mkCells [1; 2; 3]%Z 4%Z [5%Z] in
  limitOf limit0 = 0%Z /\
  pushes limit0 DoRedo c = true /\
  past (step Second limit0 DoRedo c) = [1; 2; 3; 4]%Z.
Proof.
  intros c. split; [reflexivity|]. split; [reflexivity|].
  apply (@limit_zero_never_evicts Z _ Second limit0 DoRedo c); reflexivity.
Defined.

Lemma undos_then_redos_restore_witness :
  let c := mkCells [1; 2; 3]%Z 4%Z [5%Z] in
  2 <= length (past c) /\
  (JsArray.len (past c) <= limitOf limit3)%Z /\
  redos First limit3 2 (undos First limit3 2 c) = c.
Proof.
  intros c. split; [simpl; lia|]. split; [vm_compute; discriminate|].
  apply (@undos_then_redos_restore Z _ First limit3 2 c);
    [simpl; lia | vm_compute; discriminate].
Defined.

Lemma redos_then_undos_restore_witness :
  let c := mkCells [1%Z] 2%Z [3; 4; 5]%Z in
  2 <= length (future c) /\
  (JsArray.len (past c) + Z.of_nat 2 <= limitOf limit3)%Z /\
  undos Second limit3 2 (redos Second limit3 2 c) = c.
Proof.
  intros c. split; [simpl; lia|]. split; [vm_compute; discriminate|].
  apply (@redos_then_undos_restore Z _ Second limit3 2 c);
    [simpl; lia | vm_compute; discriminate].
Defined.

Lemma reachable_history_fits_witness :
  let ops := sets [1; 2; 3; 4; 5]%Z ++ [DoUndo; DoUndo] in
  let c := run Second limit3 ops (React.mount 0%Z) in
  (0 < limitOf limit3)%Z /\
  (JsArray.len (past c) + JsArray.len (future c) <= limitOf limit3)%Z /\
  timeline (step Second limit3 DoUndo c) = timeline c /\
  timeline (step Second limit3 DoRedo c) = timeline c.
Proof.
  intros ops c. split; [reflexivity|].
  apply (@reachable_history_fits Z _ Second limit3 ops 0%Z). reflexivity.
Defined.

Lemma navigation_keeps_timeline_witness :
  let c := mkCells [1; 2]%Z 3%Z [4%Z] in
  let ops := [DoUndo; DoUndo; DoUndo; DoRedo; DoRedo; DoRedo; DoRedo; DoUndo] in
  forallb navigates ops = true /\
  (JsArray.len (past c) + JsArray.len (future c) <= limitOf limit3)%Z /\
  timeline (run First limit3 ops c) = timeline c.
Proof.
  intros c ops. split; [reflexivity|]. split; [vm_compute; discriminate|].
  apply (@navigation_keeps_timeline Z _ First limit3 ops c);
    [reflexivity | vm_compute; discriminate].
Defined.

Lemma history_holds_given_values_witness :
  let P := fun z : Z => (0 <= z)%Z in
  let ops := [DoSet (Direct 4%Z); DoSet (Functional (fun p => (p + 1)%Z));
              DoUndo; DoRedo] in
  Forall (respects P) ops /\
  Forall P (timeline (React.mount 0%Z)) /\
  Forall P (timeline (run First limit3 ops (React.mount 0%Z))).
Proof.
  intros P ops.
  assert (Hops : Forall (respects P) ops).
  { repeat constructor; unfold P; simpl; intros; lia. }
  assert (Hc : Forall P (timeline (React.mount 0%Z))).
  { repeat constructor. unfold P. simpl. lia. }
  split; [exact Hops|]. split; [exact Hc|].
  apply (@history_holds_given_values Z _ First limit3 P ops
           (React.mount 0%Z) Hops Hc).
Defined.

Lemma second_version_last_push_wins_witness :
  let c := React.mount 0%Z in
  let bump := DoSet (Functional (fun p => (p + 1)%Z)) in
  pushes limit3 bump c = true /\
  batch Second limit3 ([bump] ++ [bump]) c = mkCells [0%Z] 1%Z [] /\
  batch First limit3 [bump; bump] c = mkCells [0; 1]%Z 2%Z [].
Proof.
  intros c bump. split; [reflexivity|]. split; [|reflexivity].
  exact (@second_version_last_push_wins Z _ limit3 [bump] bump c eq_refl).
Defined.

Lemma second_version_undos_batch_witness :
  let c := mkCells [1; 2]%Z 3%Z [] in
  past c <> [] /\
  batch Second limit3 (repeat DoUndo 2) c = mkCells [1%Z] 2%Z [3; 3]%Z.
Proof.
  intros c. split; [discriminate|].
  refine (@second_version_undos_batch Z _ limit3 1 c _). discriminate.
Defined.

Lemma flags_after_move_witness :
  let c := mkCells [1; 2]%Z 3%Z [4%Z] in
  canUndo First limit3 c = true /\ canRedo First limit3 c = true /\
  (0 <= limitOf limit3)%Z /\
  (canRedo First limit3 (step First limit3 DoUndo c) = true /\
   Some (state First limit3 (step First limit3 DoUndo c)) = Some 2%Z) /\
  (canUndo First limit3 (step First limit3 DoRedo c) = true /\
   Some (state First limit3 (step First limit3 DoRedo c)) = Some 4%Z).
Proof.
  intros c.
  assert (Hlim : (0 <= limitOf limit3)%Z) by (vm_compute; discriminate).
  split; [reflexivity|]. split; [reflexivity|]. split; [exact Hlim|]. split.
  - exact (proj1 (@flags_after_move Z _ First limit3 c) eq_refl).
  - exact (proj2 (@flags_after_move Z _ First limit3 c) eq_refl Hlim).
Defined.
